(** * babyllm: the tokenizer server ([tokenizer_server.py])

    The program is one FastAPI route, [POST /tokenize], in front of a
    HuggingFace [Tokenizer] loaded once when the module is imported.  The
    development embeds the module shallowly: request bodies are JSON values
    whose objects are finite maps, the route handler is a computation in a
    small monad of state, exceptions and a record of the external calls it
    makes, and the tokenizer library is a pair of section variables
    ([from_file], [encode]) about which nothing is assumed unless a theorem
    says so.  Limits of the interpreter (recursion depth, memory) are not
    part of the model. *)

From Stdlib Require Import SpecFloat.
From stdpp Require Import base strings gmap list.

Open Scope string_scope.
Open Scope Z_scope.
Open Scope list_scope.

(** ** JSON values

    A request body after [json.loads], that is, a Python value.  A number
    is an [int] or a [float]; a [float] is an IEEE value, finite or not
    ([json.loads] gives [inf] for [Infinity] and for a literal out of range
    such as [1e400], [-inf] for [-Infinity], [nan] for [NaN]).  A [str] is
    kept as the bytes of its UTF-8 encoding, an unpaired surrogate (which
    an escape such as [\ud800] leaves in the [str]) as the three bytes
    [ED A0..BF 80..BF] that this encoding would give it.  An object is a
    [dict], here a finite map keyed by strings. *)
#[warnings="-register-all"]
Inductive json : Type :=
| JNull
| JBool (b : bool)
| JInt (n : Z)
| JFloat (x : spec_float)
| JStr (s : string)
| JArr (items : list json)
| JObj (fields : gmap string json).

(** ** The request model

    [class TextInput(BaseModel): text: str] *)
Record TextInput : Type := { text : string }.

(** What the validation of a body against [TextInput] can report. *)
Inductive ValidationError : Type :=
| model_type          (* the body is not an object *)
| missing             (* the object has no key "text" *)
| string_type.        (* the value under "text" is not a string *)

(** Validation of a body against [TextInput], as the framework does it
    before it enters the handler: the one declared field is required and,
    being annotated [str], must be a JSON string (a number, a boolean or
    [null] is not turned into one); the model declares no [extra] policy, so
    keys other than "text" are not looked at. *)
Definition validate (body : json) : ValidationError + TextInput :=
  match body with
  | JObj fields =>
      match fields !! "text" with
      | Some (JStr s) => inr {| text := s |}
      | Some _ => inl string_type
      | None => inl missing
      end
  | _ => inl model_type
  end.

(** A body that lacks a usable [text]: the three ways validation fails. *)
Inductive malformed : json → Prop :=
| malformed_not_object body :
    (∀ fields, body ≠ JObj fields) → malformed body
| malformed_missing fields :
    fields !! "text" = None → malformed (JObj fields)
| malformed_not_string fields v :
    fields !! "text" = Some v → (∀ s, v ≠ JStr s) → malformed (JObj fields).

(** The text that reaches the handler as [req.text]: the body's [text] when
    the body passes validation. *)
Definition request_text (body : json) : option string :=
  match validate body with
  | inr req => Some (text req)
  | inl _ => None
  end.

(** ** The tokenizer library's values *)

(** The two attributes of an [Encoding] that the handler reads. *)
Record Encoding : Type := { ids : list Z; attention_mask : list Z }.

(** A Python exception. *)
Inductive exn : Type := Exception (msg : string).

(** The calls the program makes into the tokenizer library, in order. *)
Inductive call : Type :=
| FromFile (path : string)     (* Tokenizer.from_file(path) *)
| Encode (input : string).     (* tokenizer.encode(input) *)

(** ** The responses of the route *)
Inductive Response : Type :=
| OK (content : gmap string (list Z))                 (* 200 *)
| UnprocessableEntity (detail : ValidationError)      (* 422 *)
| InternalServerError.                                (* 500 *)

Definition status_code (r : Response) : Z :=
  match r with
  | OK _ => 200
  | UnprocessableEntity _ => 422
  | InternalServerError => 500
  end.

Definition is_client_error (r : Response) : bool :=
  (400 <=? status_code r) && (status_code r <? 500).

Definition is_server_error (r : Response) : bool :=
  500 <=? status_code r.

(** ** The content of a 422

    A validation error reports the input it rejected: the value under
    "text" when there is one, else the whole body. *)
Definition rejected_input (body : json) : json :=
  match body with
  | JObj fields =>
      match fields !! "text" with
      | Some v => v
      | None => body
      end
  | _ => body
  end.

(** The content of a response is written with
    [json.dumps(..., ensure_ascii=False, allow_nan=False).encode("utf-8")],
    which raises on a [float] that is not finite and on a [str] that holds
    a surrogate. *)
Definition finite (x : spec_float) : bool :=
  match x with
  | S754_zero _ | S754_finite _ _ _ => true
  | S754_infinity _ | S754_nan => false
  end.

Definition byte (a : Ascii.ascii) : Z := Z.of_nat (Ascii.nat_of_ascii a).

Fixpoint encodable (s : string) : bool :=
  match s with
  | String a rest =>
      match rest with
      | String b _ =>
          negb ((byte a =? 237) && (160 <=? byte b) && (byte b <=? 191))
          && encodable rest
      | EmptyString => true
      end
  | EmptyString => true
  end.

Fixpoint renderable (v : json) : bool :=
  match v with
  | JNull | JBool _ | JInt _ => true
  | JFloat x => finite x
  | JStr s => encodable s
  | JArr items => forallb renderable items
  | JObj fields =>
      map_fold (λ key w ok, encodable key && renderable w && ok) true fields
  end.

(** The answer to a body that fails validation: the 422 whose content
    carries the error and the rejected input.  When that content cannot be
    written the exception leaves the handler of validation errors and the
    answer is a 500. *)
Definition validation_error_response
    (body : json) (detail : ValidationError) : Response :=
  if renderable (rejected_input body) then UnprocessableEntity detail
  else InternalServerError.

(** [tokenizer = Tokenizer.from_file("models/all-MiniLM-L6-v2/tokenizer.json")] *)
Definition MODEL_PATH : string := "models/all-MiniLM-L6-v2/tokenizer.json".

(** ** Two small tokenizers to run the server on

    Both map a text to the codes of its characters between the markers 101
    and 102, with a mask of ones, and raise on a text of more than eight
    characters.  The first keeps no state; the second counts its calls. *)
Fixpoint char_codes (s : string) : list Z :=
  match s with
  | EmptyString => []
  | String c rest => Z.of_nat (Ascii.nat_of_ascii c) :: char_codes rest
  end.

Definition char_encoding (s : string) : exn + Encoding :=
  if decide (String.length s ≤ 8)%nat then
    let body := [101] ++ char_codes s ++ [102] in
    inr {| ids := body; attention_mask := (λ _, 1) <$> body |}
  else inl (Exception "input too long").

Definition char_encode (t : unit) (s : string) : unit * (exn + Encoding) :=
  (t, char_encoding s).

Definition counting_encode (n : nat) (s : string) : nat * (exn + Encoding) :=
  (S n, char_encoding s).

(** A disk is a map from paths to file contents; a tokenizer file is usable
    when it exists and is not empty. *)
Definition char_from_file (fs : gmap string string) (path : string) : exn + unit :=
  match fs !! path with
  | None => inl (Exception "No such file or directory")
  | Some "" => inl (Exception "EOF while parsing a value")
  | Some _ => inr tt
  end.

Section Server.
(** The tokenizer library: the state of a [Tokenizer] object, its
    construction from a file on a disk, and [encode], which may raise and
    may change the object. *)
Context {FS Tok : Type}.
Variable from_file : FS → string → exn + Tok.
Variable encode : Tok → string → Tok * (exn + Encoding).

(** The state a request could touch: the disk, what the process has
    written to its log, and the object bound to the global [tokenizer]. *)
Record State : Type := MkState {
  disk : FS;
  logged : list string;
  tokenizer : Tok
}.

Definition set_tokenizer (σ : State) (t : Tok) : State :=
  {| disk := disk σ; logged := logged σ; tokenizer := t |}.

(** A finished computation: its result, the state it leaves and the
    library calls it made. *)
Record Run (A : Type) : Type := MkRun {
  result : A;
  after : State;
  calls : list call
}.
Arguments MkRun {A} _ _ _.
Arguments result {A} _.
Arguments after {A} _.
Arguments calls {A} _.

(** Computations that read and write the state and may raise. *)
Definition M (A : Type) : Type := State → Run (exn + A).

#[local] Instance M_ret : MRet M := λ A a σ,
  MkRun (inr a) σ [].

#[local] Instance M_bind : MBind M := λ A B f m σ,
  let r := m σ in
  match result r with
  | inl e => MkRun (inl e) (after r) (calls r)
  | inr a =>
      let r' := f a (after r) in
      MkRun (result r') (after r') (calls r ++ calls r')
  end.

(** [tokenizer.encode(text)] on the global tokenizer. *)
Definition tokenizer_encode (input : string) : M Encoding := λ σ,
  let out := encode (tokenizer σ) input in
  MkRun out.2 (set_tokenizer σ out.1) [Encode input].

(** The handler:
<<
    def tokenize(req: TextInput):
        encoding = tokenizer.encode(req.text)
        return {"ids": encoding.ids,
                "attention_mask": encoding.attention_mask}
>> *)
Definition tokenize (req : TextInput) : M (gmap string (list Z)) :=
  encoding ← tokenizer_encode (text req);
  mret {[ "ids" := ids encoding;
          "attention_mask" := attention_mask encoding ]}.

(** The route [@app.post("/tokenize")]: the body is validated against
    [TextInput] before the handler is entered; a validation failure is
    answered by [validation_error_response], an exception escaping the
    handler with 500, and the returned dict is the content of a 200. *)
Definition post_tokenize (body : json) (σ : State) : Run Response :=
  match validate body with
  | inl detail => MkRun (validation_error_response body detail) σ []
  | inr req =>
      let r := tokenize req σ in
      match result r with
      | inl _ => MkRun InternalServerError (after r) (calls r)
      | inr content => MkRun (OK content) (after r) (calls r)
      end
  end.

(** Requests served one after the other by a running process. *)
Fixpoint serve (bodies : list json) (σ : State) : Run (list Response) :=
  match bodies with
  | [] => MkRun [] σ []
  | body :: rest =>
      let r := post_tokenize body σ in
      let rs := serve rest (after r) in
      MkRun (result r :: result rs) (after rs) (calls r ++ calls rs)
  end.

(** Import of the module: the tokenizer is built at top level, before the
    route exists; an exception there ends the process. *)
Inductive Process : Type :=
| Crashed (e : exn)
| Serving (σ : State).

Definition startup (fs : FS) : Process * list call :=
  match from_file fs MODEL_PATH with
  | inl e => (Crashed e, [FromFile MODEL_PATH])
  | inr t => (Serving (MkState fs [] t), [FromFile MODEL_PATH])
  end.

(** A whole life of the process: start on a disk, then serve the requests
    that arrive.  A crashed process answers nothing. *)
Definition run (fs : FS) (bodies : list json) : option (list Response) * list call :=
  match startup fs with
  | (Crashed _, cs) => (None, cs)
  | (Serving σ, cs) =>
      let r := serve bodies σ in
      (Some (result r), cs ++ calls r)
  end.

(** ** What the tokenizer may be assumed to do *)

(** Every encoding that [encode] returns satisfies [P]. *)
Definition encode_ensures (P : Encoding → Prop) : Prop :=
  ∀ t input enc, (encode t input).2 = inr enc → P enc.

(** What [encode] answers for a text is not changed by an earlier call. *)
Definition encode_deterministic : Prop :=
  ∀ t earlier input,
    (encode (encode t earlier).1 input).2 = (encode t input).2.

(** [encode] leaves the tokenizer object as it found it. *)
Definition encode_read_only : Prop :=
  ∀ t input, (encode t input).1 = t.

Definition is_encode (c : call) : Prop := ∃ input, c = Encode input.

(** The tokenizer object after [encode] has been called on each of the
    inputs in turn. *)
Definition encoded_through (t : Tok) (inputs : list string) : Tok :=
  foldl (λ t input, (encode t input).1) t inputs.

(** The tokenizer of [σ'] answers every input as the tokenizer of [σ] does. *)
Definition same_answers (σ σ' : State) : Prop :=
  ∀ input, (encode (tokenizer σ') input).2 = (encode (tokenizer σ) input).2.

(** ** The validation layer *)

Lemma validate_text fields s :
  fields !! "text" = Some (JStr s) →
  validate (JObj fields) = inr {| text := s |}.
Proof. intros Hs. unfold validate. by rewrite Hs. Qed.

Lemma validate_malformed body :
  malformed body → ∃ detail, validate body = inl detail.
Proof.
  destruct 1 as [body Hno | fields Hnone | fields v Hv Hns]; simpl.
  - destruct body; eauto. by destruct (Hno fields).
  - rewrite Hnone. eauto.
  - rewrite Hv. destruct v; eauto. by destruct (Hns s).
Qed.

Lemma validate_accepts body req :
  validate body = inr req →
  ∃ fields, body = JObj fields ∧ fields !! "text" = Some (JStr (text req)).
Proof.
  destruct body as [| | | | | |fields]; simpl; try discriminate.
  destruct (fields !! "text") as [[]|] eqn:Hv; try discriminate.
  intros [= <-]. eauto.
Qed.

Lemma malformed_or_valid body :
  malformed body ∨ ∃ req, validate body = inr req.
Proof.
  destruct body as [| | | | | |fields];
    try (left; apply malformed_not_object; discriminate).
  destruct (fields !! "text") as [v|] eqn:Hv.
  - destruct v;
      try (left; eapply malformed_not_string; [exact Hv | discriminate]).
    right. eexists. by apply validate_text.
  - left. by apply malformed_missing.
Qed.

(** ** One request *)

Lemma tokenize_run req σ :
  tokenize req σ =
    let out := encode (tokenizer σ) (text req) in
    MkRun
      match out.2 with
      | inl e => inl e
      | inr enc => inr {[ "ids" := ids enc;
                          "attention_mask" := attention_mask enc ]}
      end
      (set_tokenizer σ out.1) [Encode (text req)].
Proof.
  unfold tokenize, mbind, M_bind, tokenizer_encode. simpl.
  by destruct (encode (tokenizer σ) (text req)) as [t [e|enc]].
Qed.

Lemma post_tokenize_reject body detail σ :
  validate body = inl detail →
  post_tokenize body σ = MkRun (validation_error_response body detail) σ [].
Proof. intros Hv. unfold post_tokenize. by rewrite Hv. Qed.

Lemma validation_error_response_status body detail :
  status_code (validation_error_response body detail)
  = if renderable (rejected_input body) then 422 else 500.
Proof.
  unfold validation_error_response.
  by destruct (renderable (rejected_input body)).
Qed.

Lemma validation_error_response_not_OK body detail content :
  validation_error_response body detail ≠ OK content.
Proof.
  unfold validation_error_response.
  by destruct (renderable (rejected_input body)).
Qed.

Lemma renderable_obj fields :
  renderable (JObj fields) = true
  ↔ map_Forall (λ key w, encodable key = true ∧ renderable w = true) fields.
Proof.
  cbn [renderable].
  induction fields as [|key w fields Hkey Hfold IH] using map_first_key_ind.
  - rewrite map_fold_empty. split; [intros _; apply map_Forall_empty | done].
  - rewrite map_fold_insert_first_key by done.
    rewrite map_Forall_insert by done.
    rewrite !andb_true_iff, IH. tauto.
Qed.

Lemma renderable_rejected_input body :
  renderable body = true → renderable (rejected_input body) = true.
Proof.
  destruct body as [| | | | | |fields]; try done.
  intros Hall. unfold rejected_input.
  destruct (fields !! "text") as [v|] eqn:Hv; [|done].
  apply renderable_obj in Hall. by destruct (Hall _ _ Hv).
Qed.

Lemma post_tokenize_accept body req σ :
  validate body = inr req →
  post_tokenize body σ =
    let out := encode (tokenizer σ) (text req) in
    MkRun
      match out.2 with
      | inl _ => InternalServerError
      | inr enc => OK {[ "ids" := ids enc;
                         "attention_mask" := attention_mask enc ]}
      end
      (set_tokenizer σ out.1) [Encode (text req)].
Proof.
  intros Hv. unfold post_tokenize. rewrite Hv, tokenize_run. simpl.
  by destruct (encode (tokenizer σ) (text req)) as [t [e|enc]].
Qed.

Lemma set_tokenizer_same σ : set_tokenizer σ (tokenizer σ) = σ.
Proof. by destruct σ. Qed.

(** ** A sequence of requests *)

Lemma serve_length bodies σ :
  length (result (serve bodies σ)) = length bodies.
Proof.
  revert σ. induction bodies as [|body rest IH]; intros σ; simpl; [done|].
  by rewrite IH.
Qed.

Lemma post_tokenize_calls body σ :
  Forall is_encode (calls (post_tokenize body σ)).
Proof.
  destruct (validate body) as [detail|req] eqn:Hv.
  - rewrite (post_tokenize_reject _ _ _ Hv). constructor.
  - rewrite (post_tokenize_accept _ _ _ Hv). simpl.
    repeat constructor. by eexists.
Qed.

Lemma serve_calls bodies σ :
  Forall is_encode (calls (serve bodies σ)).
Proof.
  revert σ. induction bodies as [|body rest IH]; intros σ; simpl.
  - constructor.
  - apply Forall_app. split; [apply post_tokenize_calls | apply IH].
Qed.

Lemma post_tokenize_keeps_answers body σ input :
  encode_deterministic →
  (encode (tokenizer (after (post_tokenize body σ))) input).2
  = (encode (tokenizer σ) input).2.
Proof.
  intros Hdet. destruct (validate body) as [detail|req] eqn:Hv.
  - by rewrite (post_tokenize_reject _ _ _ Hv).
  - rewrite (post_tokenize_accept _ _ _ Hv). simpl. apply Hdet.
Qed.

Lemma serve_keeps_answers bodies σ input :
  encode_deterministic →
  (encode (tokenizer (after (serve bodies σ))) input).2
  = (encode (tokenizer σ) input).2.
Proof.
  intros Hdet. revert σ.
  induction bodies as [|body rest IH]; intros σ; simpl; [done|].
  rewrite IH. by apply post_tokenize_keeps_answers.
Qed.

(** ** The contract of [POST /tokenize] *)

(** C1.  For a body whose [text] is the string [s], when [encode] returns
    an encoding for [s], the response is a 200 whose [ids] and
    [attention_mask] are that encoding's lists, the same elements in the
    same order, and it has no other key. *)
Theorem tokenize_response_exact fields s σ enc :
  fields !! "text" = Some (JStr s) →
  (encode (tokenizer σ) s).2 = inr enc →
  ∃ content,
    result (post_tokenize (JObj fields) σ) = OK content
    ∧ content !! "ids" = Some (ids enc)
    ∧ content !! "attention_mask" = Some (attention_mask enc)
    ∧ dom content = ({[ "ids"; "attention_mask" ]} : gset string).
Proof.
  intros Hs Henc.
  rewrite (post_tokenize_accept _ _ _ (validate_text _ _ Hs)). simpl.
  rewrite Henc. eexists. split; [reflexivity|].
  split; [by rewrite lookup_insert_eq|].
  split; [by rewrite lookup_insert_ne, lookup_singleton_eq|].
  by rewrite dom_insert_L, dom_singleton_L.
Qed.


(** C3.  If the encodings that [encode] returns have as many ids as mask
    entries, then a body with a string [text] gets either a 200 whose
    [ids] and [attention_mask] have the same length, or a 500 because
    [encode] raised; it never gets a 422. *)
Theorem response_lengths_agree fields s σ :
  encode_ensures (λ enc, length (ids enc) = length (attention_mask enc)) →
  fields !! "text" = Some (JStr s) →
  match result (post_tokenize (JObj fields) σ) with
  | OK content =>
      ∃ i m, content !! "ids" = Some i
             ∧ content !! "attention_mask" = Some m
             ∧ length i = length m
  | UnprocessableEntity _ => False
  | InternalServerError => ∃ e, (encode (tokenizer σ) s).2 = inl e
  end.
Proof.
  intros Hlen Hs.
  rewrite (post_tokenize_accept _ _ _ (validate_text _ _ Hs)). simpl.
  destruct (encode (tokenizer σ) s).2 as [e|enc] eqn:Henc; [by eexists|].
  exists (ids enc), (attention_mask enc).
  rewrite lookup_insert_eq, lookup_insert_ne, lookup_singleton_eq by done.
  repeat split. by apply (Hlen _ _ _ Henc).
Qed.

(** C4.  If the masks that [encode] returns hold only 0 and 1, then a body
    with a string [text] gets either a 200 whose [attention_mask] holds
    only 0 and 1, or a 500 because [encode] raised; it never gets a 422. *)
Theorem response_mask_binary fields s σ :
  encode_ensures (λ enc, Forall (λ b, b = 0 ∨ b = 1) (attention_mask enc)) →
  fields !! "text" = Some (JStr s) →
  match result (post_tokenize (JObj fields) σ) with
  | OK content =>
      ∃ m, content !! "attention_mask" = Some m
           ∧ Forall (λ b, b = 0 ∨ b = 1) m
  | UnprocessableEntity _ => False
  | InternalServerError => ∃ e, (encode (tokenizer σ) s).2 = inl e
  end.
Proof.
  intros Hbin Hs.
  rewrite (post_tokenize_accept _ _ _ (validate_text _ _ Hs)). simpl.
  destruct (encode (tokenizer σ) s).2 as [e|enc] eqn:Henc; [by eexists|].
  exists (attention_mask enc).
  rewrite lookup_insert_ne, lookup_singleton_eq by done.
  split; [done|]. by apply (Hbin _ _ _ Henc).
Qed.

(** C5.  The body [{"text": ""}] passes validation, and when [encode]
    returns an encoding for the empty string the response is the 200
    carrying that encoding, whatever its lists are; it is not an error. *)
Theorem empty_text_served σ enc :
  (encode (tokenizer σ) "").2 = inr enc →
  let body := JObj {[ "text" := JStr "" ]} in
  validate body = inr {| text := "" |}
  ∧ result (post_tokenize body σ)
    = OK {[ "ids" := ids enc; "attention_mask" := attention_mask enc ]}
  ∧ is_client_error (result (post_tokenize body σ)) = false
  ∧ is_server_error (result (post_tokenize body σ)) = false.
Proof.
  intros Henc body.
  assert (validate body = inr {| text := "" |}) as Hv.
  { apply validate_text. by rewrite lookup_singleton_eq. }
  rewrite (post_tokenize_accept _ _ _ Hv). simpl. by rewrite Henc.
Qed.

(** C6.  With a deterministic [encode], a request with the text [s] gets
    the same response as an earlier request with the text [s] in the same
    process, whatever was served in between. *)
Theorem same_text_same_response σ fields1 fields2 between s :
  encode_deterministic →
  fields1 !! "text" = Some (JStr s) →
  fields2 !! "text" = Some (JStr s) →
  let first := post_tokenize (JObj fields1) σ in
  let later := post_tokenize (JObj fields2)
                 (after (serve between (after first))) in
  result later = result first.
Proof.
  intros Hdet H1 H2. simpl.
  rewrite (post_tokenize_accept _ _ _ (validate_text _ _ H2)).
  rewrite (post_tokenize_accept _ _ _ (validate_text _ _ H1)). simpl.
  rewrite serve_keeps_answers by done. simpl. by rewrite Hdet.
Qed.

(** C7.  When [encode] raises on the text of a valid request, the
    exception leaves the handler as it is, the response is a 500, and
    [encode] was called once: nothing is tried again or put in its place. *)
Theorem encode_failure_propagates fields s σ e :
  fields !! "text" = Some (JStr s) →
  (encode (tokenizer σ) s).2 = inl e →
  result (tokenize {| text := s |} σ) = inl e
  ∧ result (post_tokenize (JObj fields) σ) = InternalServerError
  ∧ is_server_error (result (post_tokenize (JObj fields) σ)) = true
  ∧ calls (post_tokenize (JObj fields) σ) = [Encode s].
Proof.
  intros Hs Henc.
  rewrite (post_tokenize_accept _ _ _ (validate_text _ _ Hs)).
  rewrite tokenize_run. simpl. by rewrite Henc.
Qed.


(** C9.  A request changes neither the disk nor the log; the state it
    leaves is the one it found, or that state with the tokenizer object as
    one call of [encode] left it; so with a read-only [encode] the state
    after a request is the state before it. *)
Theorem handler_frame body σ :
  let r := post_tokenize body σ in
  disk (after r) = disk σ
  ∧ logged (after r) = logged σ
  ∧ (after r = σ ∧ calls r = []
     ∨ ∃ req, validate body = inr req
              ∧ after r = set_tokenizer σ (encode (tokenizer σ) (text req)).1
              ∧ calls r = [Encode (text req)])
  ∧ (encode_read_only → after r = σ).
Proof.
  simpl. destruct (validate body) as [detail|req] eqn:Hv.
  - rewrite (post_tokenize_reject _ _ _ Hv). simpl.
    split; [done|]. split; [done|]. split; [by left | done].
  - rewrite (post_tokenize_accept _ _ _ Hv). simpl.
    split; [done|]. split; [done|]. split.
    + right. by exists req.
    + intros Hro. rewrite Hro. apply set_tokenizer_same.
Qed.

(** C10.  A body whose [text] is a string is accepted whatever other
    fields it carries, and is served exactly as the body with that
    [text] alone. *)
Theorem extra_fields_ignored fields s σ :
  fields !! "text" = Some (JStr s) →
  post_tokenize (JObj fields) σ
  = post_tokenize (JObj {[ "text" := JStr s ]}) σ
  ∧ is_client_error (result (post_tokenize (JObj fields) σ)) = false.
Proof.
  intros Hs.
  assert (validate (JObj {[ "text" := JStr s ]}) = inr {| text := s |}) as Hv.
  { apply validate_text. by rewrite lookup_singleton_eq. }
  rewrite (post_tokenize_accept _ _ _ Hv).
  rewrite (post_tokenize_accept _ _ _ (validate_text _ _ Hs)). simpl.
  split; [done|]. by destruct (encode (tokenizer σ) s).2.
Qed.

(** ** The service over many requests *)

Lemma request_text_Some body s :
  request_text body = Some s → validate body = inr {| text := s |}.
Proof.
  unfold request_text. destruct (validate body) as [detail|[s']]; [done|].
  by intros [= ->].
Qed.

Lemma request_text_None body :
  request_text body = None → ∃ detail, validate body = inl detail.
Proof.
  unfold request_text. destruct (validate body) as [detail|req]; [|done].
  by exists detail.
Qed.

Lemma post_tokenize_text body s σ :
  request_text body = Some s →
  post_tokenize body σ =
    MkRun
      match (encode (tokenizer σ) s).2 with
      | inl _ => InternalServerError
      | inr enc => OK {[ "ids" := ids enc;
                         "attention_mask" := attention_mask enc ]}
      end
      (set_tokenizer σ (encode (tokenizer σ) s).1) [Encode s].
Proof.
  intros Hs. by rewrite (post_tokenize_accept _ _ _ (request_text_Some _ _ Hs)).
Qed.

Lemma post_tokenize_no_text body σ :
  request_text body = None →
  ∃ detail,
    post_tokenize body σ = MkRun (validation_error_response body detail) σ [].
Proof.
  intros Hs. destruct (request_text_None _ Hs) as [detail Hv].
  exists detail. by apply post_tokenize_reject.
Qed.

Lemma malformed_no_text body : malformed body ↔ request_text body = None.
Proof.
  split.
  - intros Hbad. destruct (validate_malformed _ Hbad) as [detail Hv].
    unfold request_text. by rewrite Hv.
  - intros Hs. destruct (malformed_or_valid body) as [Hbad|[req Hv]]; [done|].
    unfold request_text in Hs. by rewrite Hv in Hs.
Qed.

Lemma encoded_through_read_only t inputs :
  encode_read_only → encoded_through t inputs = t.
Proof.
  intros Hro. revert t.
  induction inputs as [|input rest IH]; intros t; simpl; [done|].
  by rewrite Hro, IH.
Qed.

Lemma post_tokenize_same_answers σ σ' body :
  same_answers σ σ' →
  result (post_tokenize body σ') = result (post_tokenize body σ).
Proof.
  intros Hsame. destruct (request_text body) as [s|] eqn:Hs.
  - rewrite !(post_tokenize_text _ _ _ Hs). simpl. by rewrite Hsame.
  - unfold post_tokenize.
    by destruct (request_text_None _ Hs) as [detail ->].
Qed.

Lemma serve_results_from σ bodies :
  encode_deterministic →
  ∀ σ', same_answers σ σ' →
        result (serve bodies σ')
        = (λ body, result (post_tokenize body σ)) <$> bodies.
Proof.
  intros Hdet.
  induction bodies as [|body rest IH]; intros σ' Hsame; simpl; [done|].
  f_equal; [by apply post_tokenize_same_answers|].
  apply IH. intros input.
  by rewrite post_tokenize_keeps_answers.
Qed.

(** X1.  Over any sequence of requests, the calls made to [encode] are the
    texts of the requests that pass validation, each once, unchanged and in
    the order of arrival: a malformed request causes no call, and a text
    seen before is encoded again. *)
Theorem serve_calls_are_request_texts bodies σ :
  calls (serve bodies σ) = Encode <$> omap request_text bodies.
Proof.
  revert σ. induction bodies as [|body rest IH]; intros σ; simpl; [done|].
  rewrite IH. destruct (request_text body) as [s|] eqn:Hs.
  - by rewrite (post_tokenize_text _ _ _ Hs).
  - by destruct (post_tokenize_no_text _ σ Hs) as [detail ->].
Qed.

(** X2.  After any sequence of requests the state is the initial one with
    the tokenizer object passed through [encode] on the valid texts in
    order: disk and log are as they were, and with a read-only [encode] the
    whole state is. *)
Theorem serve_final_state bodies σ :
  after (serve bodies σ)
  = set_tokenizer σ (encoded_through (tokenizer σ) (omap request_text bodies))
  ∧ disk (after (serve bodies σ)) = disk σ
  ∧ logged (after (serve bodies σ)) = logged σ
  ∧ (encode_read_only → after (serve bodies σ) = σ).
Proof.
  assert (after (serve bodies σ)
          = set_tokenizer σ
              (encoded_through (tokenizer σ) (omap request_text bodies)))
    as Hafter.
  { revert σ. induction bodies as [|body rest IH]; intros σ; simpl.
    - by destruct σ.
    - rewrite IH. destruct (request_text body) as [s|] eqn:Hs.
      + by rewrite (post_tokenize_text _ _ _ Hs).
      + by destruct (post_tokenize_no_text _ σ Hs) as [detail ->]. }
  rewrite Hafter. repeat split.
  intros Hro. rewrite encoded_through_read_only by done.
  apply set_tokenizer_same.
Qed.

(** X3.  With a deterministic [encode], the responses to a sequence of
    requests are, one by one, what each request alone would get from the
    process in its initial state: no response depends on the requests
    served before it. *)
Theorem serve_responses_pointwise bodies σ :
  encode_deterministic →
  result (serve bodies σ)
  = (λ body, result (post_tokenize body σ)) <$> bodies.
Proof.
  intros Hdet. by apply serve_results_from.
Qed.

(** X4.  Malformed requests leave no trace: serving a sequence makes the
    same calls and ends in the same state as serving only its valid
    requests, and those get the same responses, in the same order, as they
    get within the whole sequence. *)
Theorem malformed_requests_leave_no_trace bodies σ :
  let valid := filter (λ body, is_Some (request_text body)) bodies in
  calls (serve valid σ) = calls (serve bodies σ)
  ∧ after (serve valid σ) = after (serve bodies σ)
  ∧ result (serve valid σ)
    = (filter (λ answered : json * Response,
                 is_Some (request_text answered.1))
         (zip bodies (result (serve bodies σ)))).*2.
Proof.
  simpl. revert σ.
  induction bodies as [|body rest IH]; intros σ; [done|].
  rewrite filter_cons. destruct (request_text body) as [s|] eqn:Hs.
  - rewrite decide_True by done. simpl.
    destruct (IH (after (post_tokenize body σ))) as (Hc & Ha & Hr).
    rewrite Hc, Ha, Hr. repeat split.
    rewrite filter_cons, decide_True by (simpl; by rewrite Hs). done.
  - rewrite decide_False by (by intros [? ?]). simpl.
    destruct (post_tokenize_no_text _ σ Hs) as [detail ->]. simpl.
    destruct (IH σ) as (Hc & Ha & Hr). rewrite Hc, Ha, Hr. repeat split.
    rewrite filter_cons, decide_False; [done|].
    simpl. rewrite Hs. by intros [? ?].
Qed.



End Server.

Arguments State : clear implicits.
Arguments MkState {FS Tok} _ _ _.
Arguments MkRun {FS Tok A} _ _ _.
Arguments result {FS Tok A} _.
Arguments after {FS Tok A} _.
Arguments calls {FS Tok A} _.
Arguments Crashed {FS Tok} _.
Arguments Serving {FS Tok} _.

(** ** The contract on the two small tokenizers *)

Lemma char_encoding_aligned s enc :
  char_encoding s = inr enc → length (ids enc) = length (attention_mask enc).
Proof.
  unfold char_encoding. case_decide; [|done].
  intros [= <-]. cbn [ids attention_mask length]. f_equal.
  symmetry. apply (length_fmap (λ _ : Z, 1)).
Qed.

Lemma char_encoding_binary s enc :
  char_encoding s = inr enc →
  Forall (λ b, b = 0 ∨ b = 1) (attention_mask enc).
Proof.
  unfold char_encoding. case_decide; [|done].
  intros [= <-]. cbn [attention_mask].
  constructor; [by right|].
  apply (Forall_fmap (λ _ : Z, 1)), Forall_true. intros c. by right.
Qed.

Lemma counting_encode_deterministic : encode_deterministic counting_encode.
Proof. by intros t earlier input. Qed.

Lemma char_encode_read_only : encode_read_only char_encode.
Proof. by intros t input. Qed.

#[local] Abbreviation no_disk := (∅ : gmap string string).
#[local] Abbreviation model_disk := ({[ MODEL_PATH := "{}" ]} : gmap string string).
#[local] Abbreviation hi_en :=
  ({[ "text" := JStr "hi"; "lang" := JStr "en" ]} : gmap string json).
#[local] Abbreviation hi_encoding :=
  {| ids := [101; 104; 105; 102]; attention_mask := [1; 1; 1; 1] |}.

Lemma tokenize_response_exact_witness :
  hi_en !! "text" = Some (JStr "hi")
  ∧ (char_encode (tokenizer (MkState no_disk [] tt)) "hi").2 = inr hi_encoding
  ∧ ∃ content,
      result (post_tokenize char_encode (JObj hi_en) (MkState no_disk [] tt))
      = OK content
      ∧ content !! "ids" = Some [101; 104; 105; 102]
      ∧ content !! "attention_mask" = Some [1; 1; 1; 1]
      ∧ dom content = ({[ "ids"; "attention_mask" ]} : gset string).
Proof.
  split; [reflexivity|]. split; [reflexivity|].
  apply (tokenize_response_exact char_encode hi_en "hi"
           (MkState no_disk [] tt) hi_encoding); reflexivity.
Defined.



Lemma response_lengths_agree_witness :
  encode_ensures char_encode
    (λ enc, length (ids enc) = length (attention_mask enc))
  ∧ hi_en !! "text" = Some (JStr "hi")
  ∧ match result (post_tokenize char_encode (JObj hi_en)
                    (MkState no_disk [] tt)) with
    | OK content =>
        ∃ i m, content !! "ids" = Some i
               ∧ content !! "attention_mask" = Some m
               ∧ length i = length m
    | UnprocessableEntity _ => False
    | InternalServerError =>
        ∃ e, (char_encode (tokenizer (MkState no_disk [] tt)) "hi").2 = inl e
    end.
Proof.
  assert (encode_ensures char_encode
            (λ enc, length (ids enc) = length (attention_mask enc))) as Hlen.
  { intros t input enc. apply char_encoding_aligned. }
  split; [exact Hlen|]. split; [reflexivity|].
  apply (response_lengths_agree char_encode hi_en "hi"
           (MkState no_disk [] tt) Hlen). reflexivity.
Defined.

Lemma response_mask_binary_witness :
  encode_ensures char_encode
    (λ enc, Forall (λ b, b = 0 ∨ b = 1) (attention_mask enc))
  ∧ hi_en !! "text" = Some (JStr "hi")
  ∧ match result (post_tokenize char_encode (JObj hi_en)
                    (MkState no_disk [] tt)) with
    | OK content =>
        ∃ m, content !! "attention_mask" = Some m
             ∧ Forall (λ b, b = 0 ∨ b = 1) m
    | UnprocessableEntity _ => False
    | InternalServerError =>
        ∃ e, (char_encode (tokenizer (MkState no_disk [] tt)) "hi").2 = inl e
    end.
Proof.
  assert (encode_ensures char_encode
            (λ enc, Forall (λ b, b = 0 ∨ b = 1) (attention_mask enc))) as Hbin.
  { intros t input enc. apply char_encoding_binary. }
  split; [exact Hbin|]. split; [reflexivity|].
  apply (response_mask_binary char_encode hi_en "hi"
           (MkState no_disk [] tt) Hbin). reflexivity.
Defined.

Lemma empty_text_served_witness :
  (char_encode (tokenizer (MkState no_disk [] tt)) "").2
  = inr {| ids := [101; 102]; attention_mask := [1; 1] |}
  ∧ result (post_tokenize char_encode (JObj {[ "text" := JStr "" ]})
              (MkState no_disk [] tt))
    = OK {[ "ids" := [101; 102]; "attention_mask" := [1; 1] ]}.
Proof.
  split; [reflexivity|].
  apply (empty_text_served char_encode (MkState no_disk [] tt)
           {| ids := [101; 102]; attention_mask := [1; 1] |}). reflexivity.
Defined.

Lemma same_text_same_response_witness :
  encode_deterministic counting_encode
  ∧ hi_en !! "text" = Some (JStr "hi")
  ∧ ({[ "text" := JStr "hi" ]} : gmap string json) !! "text" = Some (JStr "hi")
  ∧ result (post_tokenize counting_encode (JObj {[ "text" := JStr "hi" ]})
              (after (serve counting_encode
                        [JObj {[ "text" := JStr "yo" ]}; JNull]
                        (after (post_tokenize counting_encode (JObj hi_en)
                                  (MkState no_disk [] 0%nat))))))
    = result (post_tokenize counting_encode (JObj hi_en)
                (MkState no_disk [] 0%nat)).
Proof.
  split; [exact counting_encode_deterministic|].
  split; [reflexivity|]. split; [reflexivity|].
  apply (same_text_same_response counting_encode (MkState no_disk [] 0%nat)
           hi_en {[ "text" := JStr "hi" ]}
           [JObj {[ "text" := JStr "yo" ]}; JNull] "hi"
           counting_encode_deterministic); reflexivity.
Defined.

Lemma encode_failure_propagates_witness :
  ({[ "text" := JStr "too long a text" ]} : gmap string json) !! "text"
  = Some (JStr "too long a text")
  ∧ (counting_encode (tokenizer (MkState no_disk [] 0%nat))
       "too long a text").2 = inl (Exception "input too long")
  ∧ result (post_tokenize counting_encode
              (JObj {[ "text" := JStr "too long a text" ]})
              (MkState no_disk [] 0%nat)) = InternalServerError
  ∧ calls (post_tokenize counting_encode
             (JObj {[ "text" := JStr "too long a text" ]})
             (MkState no_disk [] 0%nat)) = [Encode "too long a text"].
Proof.
  split; [reflexivity|]. split; [reflexivity|].
  destruct (encode_failure_propagates counting_encode
              {[ "text" := JStr "too long a text" ]} "too long a text"
              (MkState no_disk [] 0%nat) (Exception "input too long"))
    as (_ & Hres & _ & Hcalls); [reflexivity | reflexivity |].
  split; [exact Hres | exact Hcalls].
Defined.


Lemma handler_frame_witness :
  encode_read_only char_encode
  ∧ after (post_tokenize char_encode (JObj hi_en) (MkState model_disk [] tt))
    = MkState model_disk [] tt.
Proof.
  split; [exact char_encode_read_only|].
  apply (proj2 (proj2 (proj2 (handler_frame char_encode (JObj hi_en)
                                (MkState model_disk [] tt))))
           char_encode_read_only).
Defined.

Lemma extra_fields_ignored_witness :
  hi_en !! "text" = Some (JStr "hi")
  ∧ post_tokenize counting_encode (JObj hi_en) (MkState no_disk [] 0%nat)
    = post_tokenize counting_encode (JObj {[ "text" := JStr "hi" ]})
        (MkState no_disk [] 0%nat).
Proof.
  split; [reflexivity|].
  apply (extra_fields_ignored counting_encode hi_en "hi"
           (MkState no_disk [] 0%nat)). reflexivity.
Defined.

#[local] Abbreviation too_long :=
  ({[ "text" := JStr "too long a text" ]} : gmap string json).

Lemma serve_final_state_witness :
  encode_read_only char_encode
  ∧ after (serve char_encode [JObj hi_en; JNull; JObj too_long]
             (MkState model_disk [] tt))
    = MkState model_disk [] tt.
Proof.
  split; [exact char_encode_read_only|].
  apply (proj2 (proj2 (proj2 (serve_final_state char_encode
                                [JObj hi_en; JNull; JObj too_long]
                                (MkState model_disk [] tt))))
           char_encode_read_only).
Defined.

Lemma serve_responses_pointwise_witness :
  encode_deterministic counting_encode
  ∧ result (serve counting_encode
              [JObj hi_en; JNull; JObj too_long; JObj hi_en]
              (MkState no_disk [] 0%nat))
    = (λ body, result (post_tokenize counting_encode body
                         (MkState no_disk [] 0%nat)))
        <$> [JObj hi_en; JNull; JObj too_long; JObj hi_en].
Proof.
  split; [exact counting_encode_deterministic|].
  apply (serve_responses_pointwise counting_encode
           [JObj hi_en; JNull; JObj too_long; JObj hi_en]
           (MkState no_disk [] 0%nat) counting_encode_deterministic).
Defined.


